(** * ParallelSuccessiveHalving: instantiation and ranking policies

  A shallow embedding of
  [smac/intensification/parallel_successive_halving.py]: the two hooks
  [_get_intensifier_ranking] and [_add_new_instance] that the class
  [ParallelSuccessiveHalving] supplies to its scheduler base class.

  Python objects live in a store and are passed by reference; a method
  is a computation over the store that either returns or raises. *)

From Stdlib Require Import ZArith Lia.
From stdpp Require Import base decidable option list sorting.

Local Open Scope Z_scope.

(** ** Python dictionaries

  A [dict] keeps its items in insertion order: [d[k] = v] replaces the
  value in place when [k] is already a key and appends the item
  otherwise. *)

Abbreviation dict K V := (list (K * V)).

Section PyDict.
Context {K V : Type} `{EqDecision K}.

Definition len {A : Type} (l : list A) : Z := Z.of_nat (length l).

Definition keys (d : dict K V) : list K := d.*1.

Fixpoint getitem (k : K) (d : dict K V) : option V :=
  match d with
  | [] => None
  | (k', v') :: d' => if decide (k' = k) then Some v' else getitem k d'
  end.

Fixpoint setitem (k : K) (v : V) (d : dict K V) : dict K V :=
  match d with
  | [] => [(k, v)]
  | (k', v') :: d' =>
      if decide (k' = k) then (k', v) :: d' else (k', v') :: setitem k v d'
  end.
End PyDict.

(** ** Objects *)

(** Object identities: positions in the store. *)
Abbreviation loc := nat.

(** [InvalidReference] stands for the use of an identity that no object
    has; a Python program cannot produce one, and the statements below
    are about references to objects in the store. *)
Inductive Exception :=
| AssertionError
| AttributeError
| InvalidReference.

Inductive Outcome (A : Type) :=
| Returns (a : A)
| Raises (e : Exception).
Arguments Returns {A} a.
Arguments Raises {A} e.

Section Scheduler.
(** Values the scheduler only passes along (statistics, loggers, random
    state, budgets, ...) and the keys of a racer's [run_tracker]. *)
Context {PyObject RunKey : Type} `{EqDecision RunKey}.

(** Modelled from the spec: the Race Instance collaborator, class
    [SuccessiveHalving], whose definition is not part of this module.
    It keeps the keyword arguments of its constructor, among them
    [identifier]; [stage] is an attribute that a newly created object
    does not have; [run_tracker] is a dictionary with one item per run
    that the instance has issued in its current iteration. *)
Record SuccessiveHalving := {
  sh_stats : PyObject;
  sh_traj_logger : PyObject;
  sh_rng : PyObject;
  sh_instances : PyObject;
  sh_instance_specifics : PyObject;
  sh_cutoff : PyObject;
  sh_deterministic : PyObject;
  sh_initial_budget : PyObject;
  sh_max_budget : PyObject;
  sh_eta : PyObject;
  sh_num_initial_challengers : PyObject;
  sh_run_obj_time : PyObject;
  sh_n_seeds : PyObject;
  sh_instance_order : PyObject;
  sh_adaptive_capping_slackfactor : PyObject;
  sh_inst_seed_pairs : PyObject;
  sh_min_chall : PyObject;
  sh_incumbent_selection : PyObject;
  identifier : Z;
  stage : option Z;
  run_tracker : dict RunKey bool
}.

(** The attributes of [self] that the two methods read or write. *)
Record ParallelSuccessiveHalving := {
  stats : PyObject;
  traj_logger : PyObject;
  rs : PyObject;
  _instances : PyObject;
  _instance_specifics : PyObject;
  cutoff : PyObject;
  deterministic : PyObject;
  initial_budget : PyObject;
  max_budget : PyObject;
  eta : PyObject;
  num_initial_challengers : PyObject;
  run_obj_time : PyObject;
  n_seeds : PyObject;
  instance_order : PyObject;
  adaptive_capping_slackfactor : PyObject;
  inst_seed_pairs : PyObject;
  min_chall : PyObject;
  incumbent_selection : PyObject;
  intensifier_instances : dict Z loc
}.

(** An [AbstractRacer] object is a [SuccessiveHalving] (or one of its
    subclasses) or an instance of some other racer class. *)
Inductive AbstractRacer :=
| SuccessiveHalving_obj (sh : SuccessiveHalving)
| OtherRacer_obj (o : PyObject).

Record World := {
  heap : list AbstractRacer;
  self : ParallelSuccessiveHalving
}.

(** ** Computations *)

Definition M (A : Type) : Type := World -> Outcome A * World.

#[global] Instance M_ret : MRet M := fun A a w => (Returns a, w).
#[global] Instance M_bind : MBind M := fun A B f m w =>
  match m w with
  | (Returns a, w') => f a w'
  | (Raises e, w') => (Raises e, w')
  end.

Definition raise {A : Type} (e : Exception) : M A := fun w => (Raises e, w).

Definition assert (b : bool) : M unit :=
  if b then mret tt else raise AssertionError.

Definition get_self : M ParallelSuccessiveHalving :=
  fun w => (Returns (self w), w).

Definition deref (l : loc) : M AbstractRacer :=
  fun w => match heap w !! l with
           | Some o => (Returns o, w)
           | None => (Raises InvalidReference, w)
           end.

(** Object creation: the new object gets the next free identity. *)
Definition new (o : AbstractRacer) : M loc :=
  fun w => (Returns (length (heap w)),
            {| heap := heap w ++ [o]; self := self w |}).

(** [self] with its attribute [intensifier_instances] bound to [d];
    every other attribute keeps its value. *)
Definition with_intensifier_instances
    (d : dict Z loc) (s : ParallelSuccessiveHalving)
    : ParallelSuccessiveHalving :=
  {| stats := stats s;
     traj_logger := traj_logger s;
     rs := rs s;
     _instances := _instances s;
     _instance_specifics := _instance_specifics s;
     cutoff := cutoff s;
     deterministic := deterministic s;
     initial_budget := initial_budget s;
     max_budget := max_budget s;
     eta := eta s;
     num_initial_challengers := num_initial_challengers s;
     run_obj_time := run_obj_time s;
     n_seeds := n_seeds s;
     instance_order := instance_order s;
     adaptive_capping_slackfactor := adaptive_capping_slackfactor s;
     inst_seed_pairs := inst_seed_pairs s;
     min_chall := min_chall s;
     incumbent_selection := incumbent_selection s;
     intensifier_instances := d |}.

(** [self.intensifier_instances[k] = l] *)
Definition set_intensifier_instances_item (k : Z) (l : loc) : M unit :=
  fun w =>
    (Returns tt,
     {| heap := heap w;
        self := with_intensifier_instances
                  (setitem k l (intensifier_instances (self w))) (self w) |}).

(** [isinstance(o, SuccessiveHalving)] *)
Definition isinstance_SuccessiveHalving (l : loc) : M bool :=
  o ← deref l;
  mret (match o with SuccessiveHalving_obj _ => true | OtherRacer_obj _ => false end).

(** [hasattr(o, 'stage')] *)
Definition hasattr_stage (l : loc) : M bool :=
  o ← deref l;
  mret (match o with
        | SuccessiveHalving_obj sh => bool_decide (is_Some (stage sh))
        | OtherRacer_obj _ => false
        end).

(** [o.stage] *)
Definition getattr_stage (l : loc) : M Z :=
  o ← deref l;
  match o with
  | SuccessiveHalving_obj sh =>
      match stage sh with
      | Some s => mret s
      | None => raise AttributeError
      end
  | OtherRacer_obj _ => raise AttributeError
  end.

(** [o.run_tracker] *)
Definition getattr_run_tracker (l : loc) : M (dict RunKey bool) :=
  o ← deref l;
  match o with
  | SuccessiveHalving_obj sh => mret (run_tracker sh)
  | OtherRacer_obj _ => raise AttributeError
  end.

(** Modelled from the spec: the constructor of the Race Instance
    collaborator, [SuccessiveHalving(..., identifier=i)], which is not
    part of this module.  A brand-new instance has issued no job: it has
    no [stage] yet and its [run_tracker] is empty.  Construction is taken
    to succeed and to touch no other object. *)
Definition SuccessiveHalving_init
    (stats traj_logger rng instances instance_specifics cutoff
     deterministic initial_budget max_budget eta num_initial_challengers
     run_obj_time n_seeds instance_order adaptive_capping_slackfactor
     inst_seed_pairs min_chall incumbent_selection : PyObject)
    (identifier : Z) : SuccessiveHalving :=
  {| sh_stats := stats;
     sh_traj_logger := traj_logger;
     sh_rng := rng;
     sh_instances := instances;
     sh_instance_specifics := instance_specifics;
     sh_cutoff := cutoff;
     sh_deterministic := deterministic;
     sh_initial_budget := initial_budget;
     sh_max_budget := max_budget;
     sh_eta := eta;
     sh_num_initial_challengers := num_initial_challengers;
     sh_run_obj_time := run_obj_time;
     sh_n_seeds := n_seeds;
     sh_instance_order := instance_order;
     sh_adaptive_capping_slackfactor := adaptive_capping_slackfactor;
     sh_inst_seed_pairs := inst_seed_pairs;
     sh_min_chall := min_chall;
     sh_incumbent_selection := incumbent_selection;
     identifier := identifier;
     stage := None;
     run_tracker := [] |}.

(** ** The two methods *)

Definition _get_intensifier_ranking (intensifier : loc) : M (Z * Z) :=
  ok ← isinstance_SuccessiveHalving intensifier;
  assert ok;;
  let stage := 0 in
  has ← hasattr_stage intensifier;
  stage ← (if has : bool then getattr_stage intensifier else mret stage);
  tracker ← getattr_run_tracker intensifier;
  mret (stage, len tracker).

Definition _add_new_instance (num_workers : Z) : M bool :=
  s ← get_self;
  if len (intensifier_instances s) >=? num_workers then mret false
  else
    (* the right-hand side of the assignment is evaluated first *)
    l ← new (SuccessiveHalving_obj (SuccessiveHalving_init
               (stats s) (traj_logger s) (rs s) (_instances s)
               (_instance_specifics s) (cutoff s) (deterministic s)
               (initial_budget s) (max_budget s) (eta s)
               (num_initial_challengers s) (run_obj_time s) (n_seeds s)
               (instance_order s) (adaptive_capping_slackfactor s)
               (inst_seed_pairs s) (min_chall s) (incumbent_selection s)
               (len (intensifier_instances s))));
    s ← get_self;
    set_intensifier_instances_item (len (intensifier_instances s)) l;;
    mret true.

(** ** Running the methods *)

Definition result {A : Type} (m : M A) (w : World) : Outcome A := (m w).1.
Definition exec {A : Type} (m : M A) (w : World) : World := (m w).2.

(** The pool of race instances. *)
Definition pool (w : World) : dict Z loc := intensifier_instances (self w).

(** The racer that [_add_new_instance] constructs in the world [w]. *)
Definition fresh_racer (w : World) : SuccessiveHalving :=
  let s := self w in
  SuccessiveHalving_init
    (stats s) (traj_logger s) (rs s) (_instances s)
    (_instance_specifics s) (cutoff s) (deterministic s)
    (initial_budget s) (max_budget s) (eta s)
    (num_initial_challengers s) (run_obj_time s) (n_seeds s)
    (instance_order s) (adaptive_capping_slackfactor s)
    (inst_seed_pairs s) (min_chall s) (incumbent_selection s)
    (len (pool w)).

(** The world after a sequence of calls to [_add_new_instance], one per
    element of [calls], each with its own [num_workers]. *)
Fixpoint add_new_instances (calls : list Z) (w : World) : World :=
  match calls with
  | [] => w
  | num_workers :: calls' =>
      add_new_instances calls' (exec (_add_new_instance num_workers) w)
  end.

(** The keys of the pool are [0, 1, ..., len - 1], in insertion order. *)
Definition dense (w : World) : Prop :=
  keys (pool w) = seqZ 0 (len (pool w)).

(** ** The collaborators' side *)

(** The racer [sh] with its two progress attributes rebound; every other
    attribute keeps its value. *)
Definition with_progress (st : option Z) (rt : dict RunKey bool)
    (sh : SuccessiveHalving) : SuccessiveHalving :=
  {| sh_stats := sh_stats sh;
     sh_traj_logger := sh_traj_logger sh;
     sh_rng := sh_rng sh;
     sh_instances := sh_instances sh;
     sh_instance_specifics := sh_instance_specifics sh;
     sh_cutoff := sh_cutoff sh;
     sh_deterministic := sh_deterministic sh;
     sh_initial_budget := sh_initial_budget sh;
     sh_max_budget := sh_max_budget sh;
     sh_eta := sh_eta sh;
     sh_num_initial_challengers := sh_num_initial_challengers sh;
     sh_run_obj_time := sh_run_obj_time sh;
     sh_n_seeds := sh_n_seeds sh;
     sh_instance_order := sh_instance_order sh;
     sh_adaptive_capping_slackfactor := sh_adaptive_capping_slackfactor sh;
     sh_inst_seed_pairs := sh_inst_seed_pairs sh;
     sh_min_chall := sh_min_chall sh;
     sh_incumbent_selection := sh_incumbent_selection sh;
     identifier := identifier sh;
     stage := st;
     run_tracker := rt |}.

(** Modelled from the spec: what a completion does to the Race Instance
    collaborator (class [SuccessiveHalving], not part of this module), as
    far as it touches the two attributes that the ranking reads.  The
    outcome of a run is fed back to the instance that issued it, so the run
    is in [run_tracker]; the completion marks it there, and the instance
    then updates its progress: it stays in its stage, or advances to the
    next stage, or ends the iteration and starts a new one at stage 0.
    With the new iteration [run_tracker] is emptied, as the comment in
    [_get_intensifier_ranking] says of it.  Which of the three happens is
    decided by the promotion rule of the racer, which is outside this
    module; here it comes with the completion. *)
Inductive Progress :=
| StageContinues
| StageAdvances
| IterationEnds.

Definition racer_complete (k : RunKey) (p : Progress) (sh : SuccessiveHalving)
    : option SuccessiveHalving :=
  match getitem k (run_tracker sh) with
  | None => None
  | Some _ =>
      let marked := setitem k true (run_tracker sh) in
      Some match p with
           | StageContinues => with_progress (stage sh) marked sh
           | StageAdvances =>
               with_progress (Some (default 0 (stage sh) + 1)) marked sh
           | IterationEnds => with_progress (Some 0) [] sh
           end
  end.

(** The run [k] of the racer stored at [l] completes. *)
Definition racer_completion (l : loc) (k : RunKey) (p : Progress) (w : World)
    : option World :=
  match heap w !! l with
  | Some (SuccessiveHalving_obj sh) =>
      sh' ← racer_complete k p sh;
      Some {| heap := <[l := SuccessiveHalving_obj sh']> (heap w);
              self := self w |}
  | Some (OtherRacer_obj _) | None => None
  end.

(** Modelled from the spec: how the scheduler base class (class
    [ParallelScheduler], not part of this module) uses the ranking.  The
    candidates are ranked with [_get_intensifier_ranking]; ranks are
    compared lexicographically and the higher rank is selected first;
    among equal ranks the lower identifier is selected first. *)
Definition rank_lt (r1 r2 : Z * Z) : bool :=
  (r1.1 <? r2.1) || ((r1.1 =? r2.1) && (r1.2 <? r2.2)).

Definition selected_beforeb (x y : Z * (Z * Z)) : bool :=
  rank_lt y.2 x.2 || (negb (rank_lt x.2 y.2) && (x.1 <=? y.1)).

Definition selected_before (x y : Z * (Z * Z)) : Prop :=
  selected_beforeb x y = true.

#[global] Instance selected_before_dec : RelDecision selected_before :=
  fun x y => decide (selected_beforeb x y = true).

Fixpoint rank_candidates (candidates : dict Z loc) : M (list (Z * (Z * Z))) :=
  match candidates with
  | [] => mret []
  | (i, l) :: candidates' =>
      r ← _get_intensifier_ranking l;
      rest ← rank_candidates candidates';
      mret ((i, r) :: rest)
  end.

Definition selection_order (candidates : dict Z loc) : M (list Z) :=
  ranked ← rank_candidates candidates;
  mret (merge_sort selected_before ranked).*1.

(** Of the two candidates [a] and [b], [a] is selected first, whichever
    way round they are presented. *)
Definition selects_first (w : World) (a b : Z * loc) : Prop :=
  result (selection_order [a; b]) w = Returns [a.1; b.1] ∧
  result (selection_order [b; a]) w = Returns [a.1; b.1].

End Scheduler.

(** ** Construction of the scheduler *)

Section Construction.
Context {PyObject RunKey : Type}.

(** The initialiser of the base class, [ParallelScheduler.__init__], is
    not part of this module.  It is a parameter: any computation over the
    world, which may bind attributes of [self] and may raise. *)
Variable ParallelScheduler_init :
  ∀ (stats traj_logger rng instances instance_specifics cutoff deterministic
     run_obj_time adaptive_capping_slackfactor min_chall : PyObject),
    @M PyObject RunKey unit.

(** The assignments that follow the call of the base initialiser.  They
    bind ten distinct attributes of [self] to arguments, read nothing in
    between and cannot raise, so they are taken in one step.  ([self.logger]
    is bound as well; neither method reads it.) *)
Definition bind_hyperparameters
    (n_seeds instance_order inst_seed_pairs incumbent_selection instances
     instance_specifics initial_budget max_budget eta
     num_initial_challengers : PyObject) : @M PyObject RunKey unit :=
  fun w =>
    let s := self w in
    (Returns tt,
     {| heap := heap w;
        self :=
          {| stats := stats s;
             traj_logger := traj_logger s;
             rs := rs s;
             _instances := instances;
             _instance_specifics := instance_specifics;
             cutoff := cutoff s;
             deterministic := deterministic s;
             initial_budget := initial_budget;
             max_budget := max_budget;
             eta := eta;
             num_initial_challengers := num_initial_challengers;
             run_obj_time := run_obj_time s;
             n_seeds := n_seeds;
             instance_order := instance_order;
             adaptive_capping_slackfactor := adaptive_capping_slackfactor s;
             inst_seed_pairs := inst_seed_pairs;
             min_chall := min_chall s;
             incumbent_selection := incumbent_selection;
             intensifier_instances := intensifier_instances s |} |}).

Definition __init__
    (stats traj_logger rng instances instance_specifics cutoff
     deterministic initial_budget max_budget eta num_initial_challengers
     run_obj_time n_seeds instance_order adaptive_capping_slackfactor
     inst_seed_pairs min_chall incumbent_selection : PyObject)
    : @M PyObject RunKey unit :=
  ParallelScheduler_init stats traj_logger rng instances instance_specifics
    cutoff deterministic run_obj_time adaptive_capping_slackfactor min_chall;;
  bind_hyperparameters n_seeds instance_order inst_seed_pairs
    incumbent_selection instances instance_specifics initial_budget
    max_budget eta num_initial_challengers.

(** The racer that [_add_new_instance] constructs for a scheduler with
    the attributes of [s] when it gives it the identifier [i]. *)
Definition racer_for (s : @ParallelSuccessiveHalving PyObject) (i : Z)
    : @SuccessiveHalving PyObject RunKey :=
  SuccessiveHalving_init
    (stats s) (traj_logger s) (rs s) (_instances s)
    (_instance_specifics s) (cutoff s) (deterministic s)
    (initial_budget s) (max_budget s) (eta s)
    (num_initial_challengers s) (run_obj_time s) (n_seeds s)
    (instance_order s) (adaptive_capping_slackfactor s)
    (inst_seed_pairs s) (min_chall s) (incumbent_selection s) i.

(** The world [w] with [n] further race instances, numbered 0 to [n - 1],
    each in an object of its own at the end of the store, and these as
    the pool. *)
Definition grown (n : nat) (w : @World PyObject RunKey) : @World PyObject RunKey :=
  {| heap := heap w ++
             ((λ k : nat, SuccessiveHalving_obj (racer_for (self w) (Z.of_nat k)))
                <$> seq 0 n);
     self := with_intensifier_instances
               ((λ k : nat, (Z.of_nat k, (length (heap w) + k)%nat)) <$> seq 0 n)
               (self w) |}.

End Construction.

(** ** Concrete worlds, used to exercise the statements below *)

Module Examples.
Definition scheduler0 : @ParallelSuccessiveHalving nat :=
  {| stats := 1%nat; traj_logger := 2%nat; rs := 3%nat;
     _instances := 4%nat; _instance_specifics := 5%nat; cutoff := 6%nat;
     deterministic := 7%nat; initial_budget := 8%nat;
     max_budget := 9%nat; eta := 10%nat;
     num_initial_challengers := 11%nat; run_obj_time := 12%nat;
     n_seeds := 13%nat; instance_order := 14%nat;
     adaptive_capping_slackfactor := 15%nat; inst_seed_pairs := 16%nat;
     min_chall := 17%nat; incumbent_selection := 18%nat;
     intensifier_instances := [] |}.

(** A scheduler that has not created any race instance yet. *)
Definition world0 : @World nat nat := {| heap := []; self := scheduler0 |}.

(** Two workers, two race instances. *)
Definition world2 : @World nat nat := add_new_instances [2; 2] world0.

(** A race instance at stage [st] that has [n] runs in its tracker. *)
Definition racer_at (i st : Z) (n : nat) : @SuccessiveHalving nat nat :=
  with_progress (Some st) ((fun k => (k, false)) <$> seq 0 n)
    (SuccessiveHalving_init 1%nat 2%nat 3%nat 4%nat 5%nat 6%nat 7%nat
       8%nat 9%nat 10%nat 11%nat 12%nat 13%nat 14%nat 15%nat 16%nat
       17%nat 18%nat i).

Definition world_of (racers : list (@AbstractRacer nat nat)) : @World nat nat :=
  {| heap := racers;
     self := with_intensifier_instances
               (imap (fun i _ => (Z.of_nat i, i)) racers) scheduler0 |}.

(** Four race instances at different points of their races, and one
    racer of another class. *)
Definition racers : @World nat nat :=
  world_of [SuccessiveHalving_obj (racer_at 0 2 5);
            SuccessiveHalving_obj (racer_at 1 2 7);
            SuccessiveHalving_obj (racer_at 2 3 1);
            SuccessiveHalving_obj (racer_at 3 2 100);
            OtherRacer_obj 7%nat].
End Examples.

Module MoreExamples.
Import Examples.

(** A base initialiser that binds its arguments to the attributes of the
    same names ([rng] to [rs]) and starts with an empty pool. *)
Definition base_init
    (stats traj_logger rng instances instance_specifics cutoff deterministic
     run_obj_time adaptive_capping_slackfactor min_chall : nat)
    : @M nat nat unit :=
  fun w =>
    let s := self w in
    (Returns tt,
     {| heap := heap w;
        self :=
          {| stats := stats;
             traj_logger := traj_logger;
             rs := rng;
             _instances := _instances s;
             _instance_specifics := _instance_specifics s;
             cutoff := cutoff;
             deterministic := deterministic;
             initial_budget := initial_budget s;
             max_budget := max_budget s;
             eta := eta s;
             num_initial_challengers := num_initial_challengers s;
             run_obj_time := run_obj_time;
             n_seeds := n_seeds s;
             instance_order := instance_order s;
             adaptive_capping_slackfactor := adaptive_capping_slackfactor;
             inst_seed_pairs := inst_seed_pairs s;
             min_chall := min_chall;
             incumbent_selection := incumbent_selection s;
             intensifier_instances := [] |} |}).

(** The scheduler as [__init__] leaves it, on top of [base_init]. *)
Definition configured : @World nat nat :=
  exec (__init__ base_init 21%nat 22%nat 23%nat 24%nat 25%nat 26%nat 27%nat
          28%nat 29%nat 30%nat 31%nat 32%nat 33%nat 34%nat 35%nat 36%nat
          37%nat 38%nat) world0.

(** A pool that is not dense: its one item has the key 1. *)
Definition sparse : @World nat nat :=
  {| heap := [SuccessiveHalving_obj (racer_at 1 0 0)];
     self := with_intensifier_instances [(1, 0%nat)] scheduler0 |}.
End MoreExamples.

(** * Properties *)

Section PyDictFacts.
Context {K V : Type} `{EqDecision K}.
Implicit Types (k : K) (v : V) (d : dict K V).

Lemma setitem_fresh k v d : k ∉ keys d → setitem k v d = d ++ [(k, v)].
Proof.
  unfold keys. induction d as [|[k' v'] d IH]; intros Hk; [done|].
  cbn in *. apply not_elem_of_cons in Hk as [Hne Hk].
  destruct (decide (k' = k)) as [->|_]; [done|]. by rewrite IH.
Qed.

Lemma getitem_setitem k v d : getitem k (setitem k v d) = Some v.
Proof.
  induction d as [|[k' v'] d IH]; cbn.
  - by rewrite decide_True.
  - destruct (decide (k' = k)) as [->|Hne]; cbn.
    + by rewrite decide_True.
    + by rewrite decide_False.
Qed.

Lemma setitem_length k v d :
  (length d ≤ length (setitem k v d) ≤ S (length d))%nat.
Proof.
  induction d as [|[k' v'] d IH]; cbn; [lia|].
  destruct (decide (k' = k)); cbn; lia.
Qed.
End PyDictFacts.

Lemma len_app {A : Type} (l1 l2 : list A) : len (l1 ++ l2) = len l1 + len l2.
Proof. unfold len. rewrite length_app. lia. Qed.

Lemma len_nonneg {A : Type} (l : list A) : 0 <= len l.
Proof. unfold len. lia. Qed.

Lemma seqZ_snoc (n : Z) : 0 <= n → seqZ 0 (n + 1) = seqZ 0 n ++ [n].
Proof.
intros Hn. rewrite seqZ_app by lia. f_equal.
Qed.

Section Properties.
Context {PyObject RunKey : Type} `{EqDecision RunKey}.
Implicit Types (w : @World PyObject RunKey) (l : loc)
  (sh : @SuccessiveHalving PyObject RunKey).

(** *** What the two methods compute *)

Ltac run_M :=
  unfold mbind, M_bind, mret, M_ret, assert, raise, get_self, deref, new,
    set_intensifier_instances_item; cbn.

Lemma _add_new_instance_full w num_workers :
  num_workers <= len (pool w) →
  _add_new_instance num_workers w = (Returns false, w).
Proof.
  intros Hle. unfold _add_new_instance, pool in *. run_M.
  destruct (Z.geb_spec (len (intensifier_instances (self w))) num_workers);
    [done | lia].
Qed.

Lemma _add_new_instance_grow w num_workers :
  len (pool w) < num_workers →
  _add_new_instance num_workers w =
    (Returns true,
     {| heap := heap w ++ [SuccessiveHalving_obj (fresh_racer w)];
        self := with_intensifier_instances
                  (setitem (len (pool w)) (length (heap w)) (pool w))
                  (self w) |}).
Proof.
  intros Hlt. unfold _add_new_instance, pool in *. run_M.
  destruct (Z.geb_spec (len (intensifier_instances (self w))) num_workers);
    [lia | done].
Qed.

Lemma _get_intensifier_ranking_racer w l sh :
  heap w !! l = Some (SuccessiveHalving_obj sh) →
  _get_intensifier_ranking l w =
    (Returns (default 0 (stage sh), len (run_tracker sh)), w).
Proof.
  intros Hl. unfold _get_intensifier_ranking, isinstance_SuccessiveHalving,
    hasattr_stage, getattr_stage, getattr_run_tracker.
  run_M. rewrite Hl; cbn.
  destruct (stage sh) as [s|] eqn:Hs; cbn;
    by repeat (first [rewrite Hl | rewrite Hs]; cbn).
Qed.

Lemma _get_intensifier_ranking_other w l o :
  heap w !! l = Some (OtherRacer_obj o) →
  _get_intensifier_ranking l w = (Raises AssertionError, w).
Proof.
  intros Hl. unfold _get_intensifier_ranking, isinstance_SuccessiveHalving.
  run_M. by rewrite Hl.
Qed.

Lemma _get_intensifier_ranking_dangling w l :
  heap w !! l = None →
  _get_intensifier_ranking l w = (Raises InvalidReference, w).
Proof.
  intros Hl. unfold _get_intensifier_ranking, isinstance_SuccessiveHalving.
  run_M. by rewrite Hl.
Qed.

(** *** The pool under [_add_new_instance] *)

Lemma dense_fresh_key w : dense w → len (pool w) ∉ keys (pool w).
Proof.
  unfold dense. intros ->. rewrite elem_of_seqZ. lia.
Qed.

Lemma pool_grow w num_workers :
  dense w → len (pool w) < num_workers →
  pool (exec (_add_new_instance num_workers) w) =
    pool w ++ [(len (pool w), length (heap w))].
Proof.
  intros Hd Hlt. unfold exec. rewrite _add_new_instance_grow by done.
  cbn. unfold pool at 1. cbn. apply setitem_fresh, dense_fresh_key, Hd.
Qed.

Lemma dense_step w num_workers :
  dense w → dense (exec (_add_new_instance num_workers) w).
Proof.
  intros Hd. destruct (Z.le_gt_cases num_workers (len (pool w))).
  - unfold exec. by rewrite _add_new_instance_full.
  - unfold dense. rewrite pool_grow by done. unfold keys in *.
    rewrite fmap_app, len_app, Hd. cbn.
    change (len [(len (pool w), length (heap w))]) with 1.
    rewrite seqZ_snoc by apply len_nonneg. done.
Qed.

Lemma add_new_instances_app calls1 calls2 w :
  add_new_instances (calls1 ++ calls2) w =
    add_new_instances calls2 (add_new_instances calls1 w).
Proof. revert w. induction calls1 as [|c calls1 IH]; intros w; cbn; auto. Qed.

Lemma dense_add_new_instances calls w :
  dense w → dense (add_new_instances calls w).
Proof.
  revert w. induction calls as [|c calls IH]; intros w Hd; cbn; [done|].
  by apply IH, dense_step.
Qed.

Lemma heap_step_prefix w num_workers :
  heap w `prefix_of` heap (exec (_add_new_instance num_workers) w).
Proof.
  destruct (Z.le_gt_cases num_workers (len (pool w))); unfold exec.
  - by rewrite _add_new_instance_full.
  - rewrite _add_new_instance_grow by done. cbn. by apply prefix_app_r.
Qed.

Lemma pool_step_prefix w num_workers :
  dense w → pool w `prefix_of` pool (exec (_add_new_instance num_workers) w).
Proof.
  intros Hd. destruct (Z.le_gt_cases num_workers (len (pool w))).
  - unfold exec. by rewrite _add_new_instance_full.
  - rewrite pool_grow by done. by apply prefix_app_r.
Qed.

Lemma pool_size_step w num_workers :
  len (pool w) <= len (pool (exec (_add_new_instance num_workers) w)) ∧
  (len (pool w) <= num_workers →
   len (pool (exec (_add_new_instance num_workers) w)) <= num_workers).
Proof.
  destruct (Z.le_gt_cases num_workers (len (pool w))); unfold exec.
  - rewrite _add_new_instance_full by done. cbn. lia.
  - rewrite _add_new_instance_grow by done.
    pose proof (setitem_length (len (pool w)) (length (heap w)) (pool w)).
    unfold pool, len in *. cbn. lia.
Qed.

(** *** The instantiation policy *)

(** C1. On a pool whose keys are 0, 1, ..., len-1, [_add_new_instance]
    returns (it never raises), and it returns [True] if and only if the
    pool holds fewer than [num_workers] instances.  When it returns
    [True], exactly one new [SuccessiveHalving] object has been created
    and the pool has exactly one more item, which refers to that object;
    when it returns [False], neither the pool nor anything else has
    changed. *)
Theorem add_new_instance_policy w num_workers :
  dense w →
  ∃ b : bool,
    result (_add_new_instance num_workers) w = Returns b ∧
    (b = true ↔ len (pool w) < num_workers) ∧
    (b = true →
       heap (exec (_add_new_instance num_workers) w) =
         heap w ++ [SuccessiveHalving_obj (fresh_racer w)] ∧
       pool (exec (_add_new_instance num_workers) w) =
         pool w ++ [(len (pool w), length (heap w))] ∧
       len (pool (exec (_add_new_instance num_workers) w)) =
         len (pool w) + 1) ∧
    (b = false → exec (_add_new_instance num_workers) w = w).
Proof.
  intros Hd. destruct (Z.le_gt_cases num_workers (len (pool w))) as [Hle|Hlt].
  - exists false. unfold result, exec.
    rewrite _add_new_instance_full by done. cbn.
    repeat split; try done. lia.
  - exists true. rewrite pool_grow by done. unfold result, exec.
    rewrite _add_new_instance_grow by done. cbn.
    repeat split; try done. rewrite len_app. done.
Qed.

(** C2. Whenever [_add_new_instance] adds a race instance, the new
    object carries as [identifier] the size the pool had when the call
    was made, and the pool maps that same number to the new object. *)
Theorem new_instance_identifier w num_workers :
  result (_add_new_instance num_workers) w = Returns true →
  ∃ l sh,
    heap w !! l = None ∧
    heap (exec (_add_new_instance num_workers) w) !! l =
      Some (SuccessiveHalving_obj sh) ∧
    identifier sh = len (pool w) ∧
    getitem (len (pool w)) (pool (exec (_add_new_instance num_workers) w)) =
      Some l.
Proof.
  intros Hr. destruct (Z.le_gt_cases num_workers (len (pool w))) as [Hle|Hlt].
  - unfold result in Hr. by rewrite _add_new_instance_full in Hr.
  - exists (length (heap w)), (fresh_racer w). unfold exec.
    rewrite _add_new_instance_grow by done. cbn. repeat split.
    + by apply lookup_ge_None_2.
    + by rewrite lookup_app_r, Nat.sub_diag.
    + unfold pool at 2. cbn. apply getitem_setitem.
Qed.

(** C3. With [num_workers] fixed and a pool that starts within the bound
    (the empty pool does, for every [num_workers] that is not negative),
    after any number of calls to [_add_new_instance num_workers] the pool
    holds at most [num_workers] instances, and its size after [i] calls
    is at most its size after [j >= i] calls. *)
Theorem pool_growth_bound w num_workers (i j : nat) :
  len (pool w) <= num_workers →
  (i ≤ j)%nat →
  len (pool (add_new_instances (replicate i num_workers) w)) <=
    len (pool (add_new_instances (replicate j num_workers) w)) ∧
  len (pool (add_new_instances (replicate j num_workers) w)) <= num_workers.
Proof.
  intros Hbound Hij.
  assert (Hinv : ∀ n w', len (pool w') <= num_workers →
            len (pool w') <=
              len (pool (add_new_instances (replicate n num_workers) w')) ∧
            len (pool (add_new_instances (replicate n num_workers) w')) <=
              num_workers).
  { induction n as [|n IH]; intros w' Hw'; cbn; [lia|].
    destruct (pool_size_step w' num_workers) as [Hmono Hle].
    destruct (IH _ (Hle Hw')). lia. }
  replace j with (i + (j - i))%nat by lia.
  rewrite replicate_add, add_new_instances_app.
  destruct (Hinv i w Hbound) as [_ Hi].
  destruct (Hinv (j - i)%nat _ Hi). done.
Qed.

(** C4. Starting from a pool whose keys are 0, 1, ..., len-1 in
    insertion order (such as the empty pool), after every sequence of
    calls to [_add_new_instance] the keys are again exactly
    0, 1, ..., len-1 in insertion order, and any further calls leave
    every existing item in place: the pool and the store only grow at
    the end, so no item is overwritten, removed or moved, and no
    existing object is replaced. *)
Theorem pool_keys_dense_stable w calls later :
  dense w →
  keys (pool (add_new_instances calls w)) =
    seqZ 0 (len (pool (add_new_instances calls w))) ∧
  pool (add_new_instances calls w) `prefix_of`
    pool (add_new_instances (calls ++ later) w) ∧
  heap (add_new_instances calls w) `prefix_of`
    heap (add_new_instances (calls ++ later) w).
Proof.
  intros Hd. split; [by apply dense_add_new_instances|].
  rewrite add_new_instances_app.
  pose proof (dense_add_new_instances calls w Hd) as Hd1.
  generalize dependent (add_new_instances calls w). clear.
  intros w1 Hd1. revert w1 Hd1.
  induction later as [|c later IH]; intros w1 Hd1; cbn; [done|].
  destruct (IH _ (dense_step w1 c Hd1)) as [Hp Hh]. split.
  - etrans; [by apply pool_step_prefix | done].
  - etrans; [apply heap_step_prefix | done].
Qed.

(** *** The ranking *)

Lemma _get_intensifier_ranking_frame w l :
  exec (_get_intensifier_ranking l) w = w.
Proof.
  unfold exec. destruct (heap w !! l) as [[sh|o]|] eqn:Hl.
  - by rewrite (_get_intensifier_ranking_racer w l sh).
  - by rewrite (_get_intensifier_ranking_other w l o).
  - by rewrite _get_intensifier_ranking_dangling.
Qed.

Lemma _get_intensifier_ranking_run w l :
  _get_intensifier_ranking l w = (result (_get_intensifier_ranking l) w, w).
Proof.
  rewrite <- (_get_intensifier_ranking_frame w l) at 3.
  unfold result, exec. by destruct (_get_intensifier_ranking l w).
Qed.

(** C5. For a race instance, the first component of the ranking is the
    value of its [stage] attribute; for a brand-new instance, which has
    no [stage] attribute, it is 0. *)
Theorem ranking_primary_key w l sh :
  heap w !! l = Some (SuccessiveHalving_obj sh) →
  ∃ r : Z * Z,
    result (_get_intensifier_ranking l) w = Returns r ∧
    (∀ s, stage sh = Some s → r.1 = s) ∧
    (stage sh = None → r.1 = 0).
Proof.
  intros Hl. eexists. unfold result.
  rewrite (_get_intensifier_ranking_racer w l sh) by done. cbn.
  split; [done|]. split; [intros s Hs | intros Hs]; by rewrite Hs.
Qed.

(** C6, as the code has it.  For a race instance, the second component
    of the ranking is the number of items that its [run_tracker] holds at
    the time of the call; it is 0 whenever [run_tracker] is empty,
    whatever the instance has dispatched before. *)
Theorem ranking_secondary_key w l sh :
  heap w !! l = Some (SuccessiveHalving_obj sh) →
  ∃ r : Z * Z,
    result (_get_intensifier_ranking l) w = Returns r ∧
    r.2 = len (run_tracker sh) ∧
    (run_tracker sh = [] → r.2 = 0).
Proof.
  intros Hl. eexists. unfold result.
  rewrite (_get_intensifier_ranking_racer _ _ _ Hl). cbn.
  split; [done|]. split; [done|]. by intros ->.
Qed.

(** C9. An argument that is not a [SuccessiveHalving] makes the call
    fail its assertion; for an argument that is one, the call returns a
    pair of integers. *)
Theorem ranking_requires_successive_halving w l (obj : AbstractRacer) :
  heap w !! l = Some obj →
  match obj with
  | OtherRacer_obj _ =>
      result (_get_intensifier_ranking l) w = Raises AssertionError
  | SuccessiveHalving_obj _ =>
      ∃ ranking tie_breaker : Z,
        result (_get_intensifier_ranking l) w =
          Returns (ranking, tie_breaker)
  end.
Proof.
  intros Hl. unfold result. destruct obj as [sh|o].
  - rewrite (_get_intensifier_ranking_racer w l sh) by done. by do 2 eexists.
  - by rewrite (_get_intensifier_ranking_other w l o).
Qed.

(** C10. A call of [_get_intensifier_ranking] changes nothing: the store
    (hence every attribute of every racer) and the scheduler with its
    pool are the same after the call as before, whether it returns or
    raises; so a second call right after the first gives the same
    outcome. *)
Theorem ranking_is_pure w l :
  exec (_get_intensifier_ranking l) w = w ∧
  result (_get_intensifier_ranking l) (exec (_get_intensifier_ranking l) w) =
    result (_get_intensifier_ranking l) w ∧
  result (r1 ← _get_intensifier_ranking l;
          r2 ← _get_intensifier_ranking l;
          mret (r1, r2)) w =
    result (r ← _get_intensifier_ranking l; mret (r, r)) w.
Proof.
  split; [apply _get_intensifier_ranking_frame|].
  split; [by rewrite _get_intensifier_ranking_frame|].
  unfold result. unfold mbind, M_bind.
  rewrite _get_intensifier_ranking_run.
  destruct (result (_get_intensifier_ranking l) w) as [r|e] eqn:Hr; [|done].
  rewrite _get_intensifier_ranking_run, Hr. done.
Qed.

(** *** Selection among ranked instances *)

Lemma merge_sort_pair (x y : Z * (Z * Z)) :
  merge_sort selected_before [x; y] =
    if selected_beforeb x y then [x; y] else [y; x].
Proof.
  unfold merge_sort. cbn.
  destruct (decide (selected_before x y)) as [Hxy|Hxy];
    unfold selected_before in Hxy; cbn.
  - by rewrite Hxy.
  - by apply not_true_is_false in Hxy as ->.
Qed.

Lemma selection_order_pair w ia la ib lb ra rb :
  result (_get_intensifier_ranking la) w = Returns ra →
  result (_get_intensifier_ranking lb) w = Returns rb →
  result (selection_order [(ia, la); (ib, lb)]) w =
    Returns (if selected_beforeb (ia, ra) (ib, rb) then [ia; ib] else [ib; ia]).
Proof.
  intros Ha Hb. unfold result at 1, selection_order, rank_candidates.
  unfold mbind, M_bind, mret, M_ret.
  rewrite (_get_intensifier_ranking_run w la), Ha.
  rewrite (_get_intensifier_ranking_run w lb), Hb. cbn -[merge_sort].
  rewrite merge_sort_pair. by destruct (selected_beforeb _ _).
Qed.

Lemma selects_first_spec w ia la ib lb ra rb :
  result (_get_intensifier_ranking la) w = Returns ra →
  result (_get_intensifier_ranking lb) w = Returns rb →
  selected_beforeb (ia, ra) (ib, rb) = true →
  selected_beforeb (ib, rb) (ia, ra) = false →
  selects_first w (ia, la) (ib, lb).
Proof.
  intros Ha Hb Hab Hba. unfold selects_first.
  rewrite (selection_order_pair w ia la ib lb ra rb) by done.
  rewrite (selection_order_pair w ib lb ia la rb ra) by done.
  by rewrite Hab, Hba.
Qed.

Lemma rank_lt_spec (r1 r2 : Z * Z) :
  rank_lt r1 r2 = true ↔ r1.1 < r2.1 ∨ (r1.1 = r2.1 ∧ r1.2 < r2.2).
Proof.
  unfold rank_lt.
  rewrite orb_true_iff, andb_true_iff, !Z.ltb_lt, Z.eqb_eq. done.
Qed.

Lemma rank_lt_false_spec (r1 r2 : Z * Z) :
  rank_lt r1 r2 = false ↔ r2.1 < r1.1 ∨ (r1.1 = r2.1 ∧ r2.2 <= r1.2).
Proof.
  rewrite <- not_true_iff_false, rank_lt_spec. lia.
Qed.

Lemma selected_beforeb_higher_rank (i j : Z) (ri rj : Z * Z) :
  rank_lt rj ri = true →
  selected_beforeb (i, ri) (j, rj) = true ∧
  selected_beforeb (j, rj) (i, ri) = false.
Proof.
  intros Hlt. unfold selected_beforeb. cbn. rewrite Hlt. cbn.
  assert (rank_lt ri rj = false) as ->; [|done].
  apply rank_lt_spec in Hlt. apply rank_lt_false_spec. lia.
Qed.

Lemma selected_beforeb_tie (i j : Z) (r : Z * Z) :
  i < j →
  selected_beforeb (i, r) (j, r) = true ∧
  selected_beforeb (j, r) (i, r) = false.
Proof.
  intros Hij. unfold selected_beforeb. cbn.
  assert (rank_lt r r = false) as ->.
  { apply rank_lt_false_spec. lia. }
  cbn. split; [apply Z.leb_le | apply Z.leb_gt]; lia.
Qed.

(** C7. Ranks are compared lexicographically and the higher rank is
    selected first, the stage counting before the tie breaker: of two
    instances, the one whose rank is lexicographically higher is selected
    first; in particular rank (2, 7) goes before rank (2, 5), and rank
    (3, 1) goes before rank (2, 100). *)
Theorem ranking_order_lexicographic w ia la ib lb :
  (∀ ra rb,
     result (_get_intensifier_ranking la) w = Returns ra →
     result (_get_intensifier_ranking lb) w = Returns rb →
     rb.1 < ra.1 ∨ (rb.1 = ra.1 ∧ rb.2 < ra.2) →
     selects_first w (ia, la) (ib, lb)) ∧
  (result (_get_intensifier_ranking la) w = Returns (2, 7) →
   result (_get_intensifier_ranking lb) w = Returns (2, 5) →
   selects_first w (ia, la) (ib, lb)) ∧
  (result (_get_intensifier_ranking la) w = Returns (3, 1) →
   result (_get_intensifier_ranking lb) w = Returns (2, 100) →
   selects_first w (ia, la) (ib, lb)).
Proof.
  assert (Hgen : ∀ ra rb,
     result (_get_intensifier_ranking la) w = Returns ra →
     result (_get_intensifier_ranking lb) w = Returns rb →
     rb.1 < ra.1 ∨ (rb.1 = ra.1 ∧ rb.2 < ra.2) →
     selects_first w (ia, la) (ib, lb)).
  { intros ra rb Ha Hb Hlt. apply rank_lt_spec in Hlt.
    destruct (selected_beforeb_higher_rank ia ib ra rb Hlt).
    by apply (selects_first_spec w ia la ib lb ra rb). }
  split; [done|].
  split; intros Ha Hb; apply (Hgen _ _ Ha Hb); cbn; lia.
Qed.

Lemma selected_before_spec (x y : Z * (Z * Z)) :
  selected_before x y ↔
    rank_lt y.2 x.2 = true ∨
    (x.2.1 = y.2.1 ∧ x.2.2 = y.2.2 ∧ x.1 <= y.1).
Proof.
  unfold selected_before, selected_beforeb.
  rewrite orb_true_iff, andb_true_iff, negb_true_iff, Z.leb_le.
  rewrite rank_lt_false_spec, rank_lt_spec. lia.
Qed.

#[local] Instance selected_before_total : Total selected_before.
Proof.
  intros x y. rewrite !selected_before_spec, !rank_lt_spec. lia.
Qed.

#[local] Instance selected_before_trans : Transitive selected_before.
Proof.
  intros x y z. rewrite !selected_before_spec, !rank_lt_spec. lia.
Qed.

#[local] Instance selected_before_antisymm : AntiSymm (=) selected_before.
Proof.
  intros [i [p s]] [j [q t]]. rewrite !selected_before_spec, !rank_lt_spec.
  cbn. intros Hxy Hyx. repeat f_equal; lia.
Qed.

Lemma merge_sort_sorted (ranked sorted : list (Z * (Z * Z))) :
  StronglySorted selected_before sorted →
  ranked ≡ₚ sorted →
  merge_sort selected_before ranked = sorted.
Proof.
  intros Hs Hp. apply (StronglySorted_unique selected_before); [|done|].
  - apply StronglySorted_merge_sort; apply _.
  - by rewrite merge_sort_Permutation.
Qed.

Lemma rank_candidates_tied w (candidates : dict Z loc) (r : Z * Z) :
  Forall (λ c, result (_get_intensifier_ranking c.2) w = Returns r)
    candidates →
  rank_candidates candidates w =
    (Returns ((λ c, (c.1, r)) <$> candidates), w).
Proof.
  induction 1 as [|[i l] candidates Hl _ IH]; [done|].
  cbn in *. unfold mbind, M_bind, mret, M_ret.
  by rewrite (_get_intensifier_ranking_run w l), Hl, IH.
Qed.

Lemma tied_sorted (ids : list Z) (r : Z * Z) :
  StronglySorted Z.lt ids →
  StronglySorted selected_before ((λ i, (i, r)) <$> ids).
Proof.
  induction 1 as [|i ids _ IH Hi]; cbn; constructor; [done|].
  apply Forall_fmap. eapply Forall_impl; [exact Hi|].
  intros j Hij. cbn. by apply selected_beforeb_tie.
Qed.

Lemma tied_keys (ids : list Z) (r : Z * Z) :
  ((λ i, (i, r)) <$> ids).*1 = ids.
Proof. induction ids as [|i ids IH]; cbn; by rewrite ?IH. Qed.

Lemma selection_order_tied w (candidates presented : dict Z loc) (r : Z * Z) :
  Forall (λ c, result (_get_intensifier_ranking c.2) w = Returns r)
    candidates →
  StronglySorted Z.lt candidates.*1 →
  presented ≡ₚ candidates →
  result (selection_order presented) w = Returns candidates.*1.
Proof.
  intros Hr Hs Hp. unfold result, selection_order, mbind, M_bind, mret, M_ret.
  rewrite (rank_candidates_tied w presented r) by by rewrite Hp.
  cbn -[merge_sort]. f_equal.
  rewrite (merge_sort_sorted _ ((λ i, (i, r)) <$> candidates.*1)).
  - apply tied_keys.
  - by apply tied_sorted.
  - rewrite Hp. by rewrite <- list_fmap_compose.
Qed.

Lemma two_fresh_instances w nw1 nw2 :
  pool w = [] → 1 <= nw1 → 2 <= nw2 →
  add_new_instances [nw1; nw2] w =
    {| heap := (heap w ++ [SuccessiveHalving_obj (fresh_racer w)]) ++
               [SuccessiveHalving_obj
                  (fresh_racer (exec (_add_new_instance nw1) w))];
       self := with_intensifier_instances
                 [(0, length (heap w)); (1, S (length (heap w)))]
                 (self w) |}.
Proof.
  intros Hp H1 H2. cbn. unfold exec at 1.
  assert (Hw1 : _add_new_instance nw1 w =
            (Returns true,
             {| heap := heap w ++ [SuccessiveHalving_obj (fresh_racer w)];
                self := with_intensifier_instances
                          [(0, length (heap w))] (self w) |})).
  { rewrite _add_new_instance_grow by (rewrite Hp; unfold len; cbn; lia).
    by rewrite Hp. }
  unfold exec. rewrite Hw1. cbn.
  rewrite _add_new_instance_grow by (unfold pool, len; cbn; lia). cbn.
  change (len [(0, length (heap w))]) with 1.
  rewrite decide_False by lia.
  rewrite length_app, Nat.add_1_r. done.
Qed.

(** C8. Instances tied on both ranking keys are selected by ascending
    identifier, whichever way round they are presented; and the two
    instances that two calls of [_add_new_instance] create in an empty
    pool are tied at rank (0, 0), have identifiers 0 and 1, and are
    selected in the order 0, 1. *)
Theorem tie_break_ascending_identifier :
  (∀ w (candidates presented : dict Z loc) (r : Z * Z),
     Forall (λ c, result (_get_intensifier_ranking c.2) w = Returns r)
       candidates →
     StronglySorted Z.lt candidates.*1 →
     presented ≡ₚ candidates →
     result (selection_order presented) w = Returns candidates.*1) ∧
  (∀ w ia la ib lb (r : Z * Z),
     result (_get_intensifier_ranking la) w = Returns r →
     result (_get_intensifier_ranking lb) w = Returns r →
     ia < ib →
     selects_first w (ia, la) (ib, lb)) ∧
  (∀ w nw1 nw2,
     pool w = [] → 1 <= nw1 → 2 <= nw2 →
     let w2 := add_new_instances [nw1; nw2] w in
     ∃ l0 l1 sh0 sh1,
       pool w2 = [(0, l0); (1, l1)] ∧
       heap w2 !! l0 = Some (SuccessiveHalving_obj sh0) ∧
       heap w2 !! l1 = Some (SuccessiveHalving_obj sh1) ∧
       identifier sh0 = 0 ∧ identifier sh1 = 1 ∧
       result (_get_intensifier_ranking l0) w2 = Returns (0, 0) ∧
       result (_get_intensifier_ranking l1) w2 = Returns (0, 0) ∧
       result (selection_order (pool w2)) w2 = Returns [0; 1] ∧
       selects_first w2 (0, l0) (1, l1)).
Proof.
  split; [apply selection_order_tied|].
  assert (Hpair : ∀ w ia la ib lb (r : Z * Z),
     result (_get_intensifier_ranking la) w = Returns r →
     result (_get_intensifier_ranking lb) w = Returns r →
     ia < ib →
     selects_first w (ia, la) (ib, lb)).
  { intros w ia la ib lb r Ha Hb Hlt.
    destruct (selected_beforeb_tie ia ib r Hlt).
    by apply (selects_first_spec w ia la ib lb r r). }
  split; [done|].
  intros w nw1 nw2 Hp H1 H2 w2. subst w2.
  rewrite two_fresh_instances by done.
  set (sh0 := fresh_racer w).
  set (sh1 := fresh_racer (exec (_add_new_instance nw1) w)).
  set (w2 := Build_World _ _).
  assert (Hl0 : heap w2 !! length (heap w) = Some (SuccessiveHalving_obj sh0)).
  { cbn. rewrite lookup_app_l by (rewrite length_app; cbn; lia).
    by rewrite lookup_app_r, Nat.sub_diag. }
  assert (Hl1 : heap w2 !! S (length (heap w)) =
                  Some (SuccessiveHalving_obj sh1)).
  { cbn. rewrite lookup_app_r by (rewrite length_app; cbn; lia).
    rewrite length_app. cbn.
    by replace (S (length (heap w)) - (length (heap w) + 1))%nat with 0%nat
      by lia. }
  assert (Hr0 : result (_get_intensifier_ranking (length (heap w))) w2 =
                  Returns (0, 0)).
  { unfold result. by rewrite (_get_intensifier_ranking_racer _ _ _ Hl0). }
  assert (Hr1 : result (_get_intensifier_ranking (S (length (heap w)))) w2 =
                  Returns (0, 0)).
  { unfold result. by rewrite (_get_intensifier_ranking_racer _ _ _ Hl1). }
  exists (length (heap w)), (S (length (heap w))), sh0, sh1.
  split; [done|]. split; [done|]. split; [done|].
  split; [by subst sh0; cbn; rewrite Hp|].
  split.
  { subst sh1. cbn. unfold exec.
    rewrite _add_new_instance_grow by (rewrite Hp; unfold len; cbn; lia).
    unfold pool. cbn. fold (pool w). by rewrite Hp. }
  split; [done|]. split; [done|].
  pose proof (Hpair w2 0 (length (heap w)) 1 (S (length (heap w))) (0, 0)
                Hr0 Hr1 ltac:(lia)) as Hsel.
  split; [|done]. apply Hsel.
Qed.

End Properties.

(** * The statements at concrete worlds *)

Import Examples.

(** C6 as the specification states it does not hold: the tie breaker of
    a racer at stage 2 with five runs in its tracker is 5, and after the
    completion that ends the iteration it is 0. *)
Lemma secondary_key_decreases :
  result (_get_intensifier_ranking 0%nat) racers = Returns (2, 5) ∧
  (∃ w' : @World nat nat,
     racer_completion 0%nat 4%nat IterationEnds racers = Some w' ∧
     result (_get_intensifier_ranking 0%nat) w' = Returns (0, 0)) ∧
  ¬ (∀ (w w' : @World nat nat) (l : loc) (k : nat) (p : Progress)
       (r r' : Z * Z),
       racer_completion l k p w = Some w' →
       result (_get_intensifier_ranking l) w = Returns r →
       result (_get_intensifier_ranking l) w' = Returns r' →
       r.2 <= r'.2).
Proof.
  split; [reflexivity|]. split.
  - eexists. split; reflexivity.
  - intros Hmono.
    specialize (Hmono racers _ 0%nat 4%nat IterationEnds (2, 5) (0, 0)
                  eq_refl eq_refl eq_refl).
    cbn in Hmono. lia.
Qed.

Lemma add_new_instance_policy_witness :
  dense world0 ∧
  ∃ b : bool,
    result (_add_new_instance 2) world0 = Returns b ∧
    (b = true ↔ len (pool world0) < 2) ∧
    (b = true →
       heap (exec (_add_new_instance 2) world0) =
         heap world0 ++ [SuccessiveHalving_obj (fresh_racer world0)] ∧
       pool (exec (_add_new_instance 2) world0) =
         pool world0 ++ [(len (pool world0), length (heap world0))] ∧
       len (pool (exec (_add_new_instance 2) world0)) =
         len (pool world0) + 1) ∧
    (b = false → exec (_add_new_instance 2) world0 = world0).
Proof.
  split; [reflexivity | apply (add_new_instance_policy world0 2); reflexivity].
Defined.

Lemma new_instance_identifier_witness :
  result (_add_new_instance 2) world0 = Returns true ∧
  ∃ l sh,
    heap world0 !! l = None ∧
    heap (exec (_add_new_instance 2) world0) !! l =
      Some (SuccessiveHalving_obj sh) ∧
    identifier sh = len (pool world0) ∧
    getitem (len (pool world0)) (pool (exec (_add_new_instance 2) world0)) =
      Some l.
Proof.
  split; [reflexivity | apply (new_instance_identifier world0 2); reflexivity].
Defined.

Lemma pool_growth_bound_witness :
  len (pool world0) <= 2 ∧ (1 ≤ 5)%nat ∧
  len (pool (add_new_instances (replicate 1 2) world0)) <=
    len (pool (add_new_instances (replicate 5 2) world0)) ∧
  len (pool (add_new_instances (replicate 5 2) world0)) <= 2.
Proof.
  split; [vm_compute; discriminate|]. split; [lia|].
  apply (pool_growth_bound world0 2 1 5); [vm_compute; discriminate | lia].
Defined.

Lemma pool_keys_dense_stable_witness :
  dense world0 ∧
  keys (pool (add_new_instances [3; 3] world0)) =
    seqZ 0 (len (pool (add_new_instances [3; 3] world0))) ∧
  pool (add_new_instances [3; 3] world0) `prefix_of`
    pool (add_new_instances ([3; 3] ++ [1; 3]) world0) ∧
  heap (add_new_instances [3; 3] world0) `prefix_of`
    heap (add_new_instances ([3; 3] ++ [1; 3]) world0).
Proof.
  split; [reflexivity |
          apply (pool_keys_dense_stable world0 [3; 3] [1; 3]); reflexivity].
Defined.

Lemma ranking_primary_key_witness :
  heap racers !! 2%nat = Some (SuccessiveHalving_obj (racer_at 2 3 1)) ∧
  ∃ r : Z * Z,
    result (_get_intensifier_ranking 2%nat) racers = Returns r ∧
    (∀ s, stage (racer_at 2 3 1) = Some s → r.1 = s) ∧
    (stage (racer_at 2 3 1) = None → r.1 = 0).
Proof.
  split; [reflexivity |
          apply (ranking_primary_key racers 2%nat (racer_at 2 3 1)); reflexivity].
Defined.

Lemma ranking_secondary_key_witness :
  heap racers !! 1%nat = Some (SuccessiveHalving_obj (racer_at 1 2 7)) ∧
  ∃ r : Z * Z,
    result (_get_intensifier_ranking 1%nat) racers = Returns r ∧
    r.2 = len (run_tracker (racer_at 1 2 7)) ∧
    (run_tracker (racer_at 1 2 7) = [] → r.2 = 0).
Proof.
  split; [reflexivity |
          apply (ranking_secondary_key racers 1%nat (racer_at 1 2 7));
            reflexivity].
Defined.

Lemma ranking_order_lexicographic_witness :
  result (_get_intensifier_ranking 1%nat) racers = Returns (2, 7) ∧
  result (_get_intensifier_ranking 0%nat) racers = Returns (2, 5) ∧
  result (_get_intensifier_ranking 2%nat) racers = Returns (3, 1) ∧
  result (_get_intensifier_ranking 3%nat) racers = Returns (2, 100) ∧
  selects_first racers (1, 1%nat) (0, 0%nat) ∧
  selects_first racers (2, 2%nat) (3, 3%nat) ∧
  selects_first racers (2, 2%nat) (1, 1%nat).
Proof.
  do 4 (split; [reflexivity|]). split; [|split].
  - apply (proj1 (proj2 (ranking_order_lexicographic racers 1 1%nat 0 0%nat)));
      reflexivity.
  - apply (proj2 (proj2 (ranking_order_lexicographic racers 2 2%nat 3 3%nat)));
      reflexivity.
  - apply (proj1 (ranking_order_lexicographic racers 2 2%nat 1 1%nat)
             (3, 1) (2, 7)); [reflexivity | reflexivity | cbn; lia].
Defined.

Lemma tie_break_ascending_identifier_witness :
  pool world0 = [] ∧
  pool world2 = [(0, 0%nat); (1, 1%nat)] ∧
  result (_get_intensifier_ranking 0%nat) world2 = Returns (0, 0) ∧
  result (_get_intensifier_ranking 1%nat) world2 = Returns (0, 0) ∧
  selects_first world2 (0, 0%nat) (1, 1%nat) ∧
  result (selection_order [(1, 1%nat); (0, 0%nat)]) world2 = Returns [0; 1] ∧
  ∃ l0 l1 sh0 sh1,
    pool world2 = [(0, l0); (1, l1)] ∧
    heap world2 !! l0 = Some (SuccessiveHalving_obj sh0) ∧
    heap world2 !! l1 = Some (SuccessiveHalving_obj sh1) ∧
    identifier sh0 = 0 ∧ identifier sh1 = 1 ∧
    result (_get_intensifier_ranking l0) world2 = Returns (0, 0) ∧
    result (_get_intensifier_ranking l1) world2 = Returns (0, 0) ∧
    result (selection_order (pool world2)) world2 = Returns [0; 1] ∧
    selects_first world2 (0, l0) (1, l1).
Proof.
  do 4 (split; [reflexivity|]). split; [|split].
  - apply (proj1 (proj2 tie_break_ascending_identifier)
             world2 0 0%nat 1 1%nat (0, 0)); [reflexivity | reflexivity | lia].
  - apply (proj1 tie_break_ascending_identifier
             world2 [(0, 0%nat); (1, 1%nat)] [(1, 1%nat); (0, 0%nat)] (0, 0)).
    + repeat constructor.
    + repeat constructor.
    + apply Permutation_swap.
  - apply (proj2 (proj2 tie_break_ascending_identifier) world0 2 2);
      [reflexivity | lia | lia].
Defined.

Lemma ranking_requires_successive_halving_witness :
  heap racers !! 4%nat = Some (OtherRacer_obj 7%nat) ∧
  result (_get_intensifier_ranking 4%nat) racers = Raises AssertionError ∧
  heap racers !! 3%nat = Some (SuccessiveHalving_obj (racer_at 3 2 100)) ∧
  ∃ ranking tie_breaker : Z,
    result (_get_intensifier_ranking 3%nat) racers =
      Returns (ranking, tie_breaker).
Proof.
  split; [reflexivity|]. split.
  - apply (ranking_requires_successive_halving racers 4%nat
             (OtherRacer_obj 7%nat)); reflexivity.
  - split; [reflexivity|].
    apply (ranking_requires_successive_halving racers 3%nat
             (SuccessiveHalving_obj (racer_at 3 2 100))); reflexivity.
Defined.


(** * Further properties of the two methods and of the constructor *)

Section PyDictMore.
Context {K V : Type} `{EqDecision K}.
Implicit Types (k : K) (v : V) (d : dict K V).

Lemma setitem_present_keys k v d :
  k ∈ keys d → keys (setitem k v d) = keys d.
Proof.
  unfold keys. induction d as [|[k' v'] d IH]; cbn; intros Hk.
  - by apply elem_of_nil in Hk.
  - destruct (decide (k' = k)) as [->|Hne]; cbn; [done|].
    apply elem_of_cons in Hk as [->|Hk]; [done|]. by rewrite IH.
Qed.

Lemma keys_length d : length (keys d) = length d.
Proof. unfold keys. apply length_fmap. Qed.
End PyDictMore.

Section MoreProperties.
Context {PyObject RunKey : Type}.
Implicit Types (w : @World PyObject RunKey) (l : loc)
  (sh : @SuccessiveHalving PyObject RunKey)
  (s : @ParallelSuccessiveHalving PyObject).

Lemma with_intensifier_instances_self w :
  with_intensifier_instances (pool w) (self w) = self w.
Proof. destruct w as [h []]. reflexivity. Qed.

Lemma self_step w num_workers :
  self (exec (_add_new_instance num_workers) w) =
    with_intensifier_instances
      (pool (exec (_add_new_instance num_workers) w)) (self w).
Proof.
  destruct (Z.le_gt_cases num_workers (len (pool w))); unfold exec.
  - rewrite _add_new_instance_full by done. cbn.
    by rewrite with_intensifier_instances_self.
  - by rewrite _add_new_instance_grow.
Qed.

Lemma ranking_lookup w w' l :
  heap w' !! l = heap w !! l →
  result (_get_intensifier_ranking l) w' =
    result (_get_intensifier_ranking l) w.
Proof.
  intros Hl. unfold result. destruct (heap w !! l) as [[sh|o]|] eqn:Hw.
  - by rewrite (_get_intensifier_ranking_racer w l sh),
      (_get_intensifier_ranking_racer w' l sh).
  - by rewrite (_get_intensifier_ranking_other w l o),
      (_get_intensifier_ranking_other w' l o).
  - by rewrite !_get_intensifier_ranking_dangling.
Qed.

Lemma heap_prefix_add_new_instances calls w :
  heap w `prefix_of` heap (add_new_instances calls w).
Proof.
  revert w. induction calls as [|c calls IH]; intros w; cbn; [done|].
  etrans; [apply heap_step_prefix | apply IH].
Qed.

(** X1. How the pool fills up: after [k] calls with the same
    [num_workers] on a dense pool, the pool holds
    max (len, min (len + k, num_workers)) instances, where len is the size
    it had before. *)
Theorem pool_size_after_calls w num_workers (k : nat) :
  dense w →
  len (pool (add_new_instances (replicate k num_workers) w)) =
    Z.max (len (pool w))
          (Z.min (len (pool w) + Z.of_nat k) num_workers).
Proof.
  revert w. induction k as [|k IH]; intros w Hd; cbn [replicate add_new_instances].
  - lia.
  - rewrite IH by by apply dense_step.
    destruct (Z.le_gt_cases num_workers (len (pool w))) as [Hle|Hlt].
    + unfold exec. rewrite _add_new_instance_full by done. cbn. lia.
    + rewrite pool_grow by done. rewrite len_app.
      change (len [(len (pool w), length (heap w))]) with 1. lia.
Qed.

Lemma calls_on_full_pool w calls :
  Forall (λ num_workers, num_workers <= len (pool w)) calls →
  Forall (λ num_workers,
            result (_add_new_instance num_workers) w = Returns false) calls ∧
  add_new_instances calls w = w.
Proof.
  induction 1 as [|c calls Hc _ [IHr IHw]]; [done|]. split.
  - constructor; [|done]. unfold result.
    by rewrite _add_new_instance_full.
  - cbn. unfold exec. by rewrite _add_new_instance_full.
Qed.

(** X2. A full pool is a fixed point: calls whose [num_workers] does not
    exceed the size of the pool all return [False], and any sequence of
    them leaves the whole world as it was. *)
Theorem full_pool_fixed_point w calls :
  Forall (λ num_workers, num_workers <= len (pool w)) calls →
  Forall (λ num_workers,
            result (_add_new_instance num_workers) w = Returns false) calls ∧
  add_new_instances calls w = w.
Proof. apply calls_on_full_pool. Qed.

(** X3. With [num_workers] zero or negative no instance is ever created,
    whatever the pool, the empty one included. *)
Theorem no_workers_no_instance w calls :
  Forall (λ num_workers, num_workers <= 0) calls →
  Forall (λ num_workers,
            result (_add_new_instance num_workers) w = Returns false) calls ∧
  add_new_instances calls w = w.
Proof.
  intros Hc. apply calls_on_full_pool.
  eapply Forall_impl; [exact Hc|]. intros c Hle. cbn in *.
  pose proof (len_nonneg (pool w)). lia.
Qed.

(** X4. What [_add_new_instance] leaves alone, on any world and for any
    sequence of calls: every attribute of the scheduler other than
    [intensifier_instances] keeps its value, and every object that was in
    the store is still there, at its place and unchanged. *)
Theorem add_new_instances_frame w calls :
  self (add_new_instances calls w) =
    with_intensifier_instances (pool (add_new_instances calls w)) (self w) ∧
  heap w `prefix_of` heap (add_new_instances calls w) ∧
  (∀ l obj, heap w !! l = Some obj →
            heap (add_new_instances calls w) !! l = Some obj).
Proof.
  split; [|split].
  - revert w. induction calls as [|c calls IH]; intros w; cbn.
    + by rewrite with_intensifier_instances_self.
    + rewrite IH. by rewrite self_step.
  - apply heap_prefix_add_new_instances.
  - intros l obj Hl.
    destruct (heap_prefix_add_new_instances calls w) as [added ->].
    by apply lookup_app_l_Some.
Qed.

(** X5. Creating instances does not change how the existing ones rank:
    for an object that was in the store before, the ranking after any
    sequence of calls of [_add_new_instance] is the ranking before, be it
    a rank or the failed assertion. *)
Theorem ranking_stable_under_add w calls l (obj : AbstractRacer) :
  heap w !! l = Some obj →
  result (_get_intensifier_ranking l) (add_new_instances calls w) =
    result (_get_intensifier_ranking l) w.
Proof.
  intros Hl. apply ranking_lookup. rewrite Hl.
  destruct (heap_prefix_add_new_instances calls w) as [added ->].
  by apply lookup_app_l_Some.
Qed.

(** X6. The instance that a successful call of [_add_new_instance] has
    just put in the pool ranks (0, 0): it has no [stage] attribute, so the
    default 0 is taken, and nothing in its [run_tracker] (the constructor
    being taken to start with an empty one). *)
Theorem new_instance_ranks_lowest w num_workers :
  result (_add_new_instance num_workers) w = Returns true →
  ∃ l,
    getitem (len (pool w)) (pool (exec (_add_new_instance num_workers) w)) =
      Some l ∧
    result (_get_intensifier_ranking l)
      (exec (_add_new_instance num_workers) w) = Returns (0, 0).
Proof.
  intros Hr. destruct (Z.le_gt_cases num_workers (len (pool w))) as [Hle|Hlt].
  - unfold result in Hr. by rewrite _add_new_instance_full in Hr.
  - exists (length (heap w)). unfold exec.
    rewrite _add_new_instance_grow by done. cbn. split.
    + unfold pool at 2. cbn. apply getitem_setitem.
    + unfold result.
      rewrite (_get_intensifier_ranking_racer _ _ (fresh_racer w)); [done|].
      cbn. by rewrite lookup_app_r, Nat.sub_diag.
Qed.

(** X7. Why the pool has to be dense: when the pool already has an item
    under the key len(pool), a call below the bound still returns [True]
    and still creates an object, but the assignment replaces that item; the
    pool has the same keys and the same size as before, and the key now
    refers to the new object. *)
Theorem add_new_instance_key_collision w num_workers :
  len (pool w) ∈ keys (pool w) →
  len (pool w) < num_workers →
  result (_add_new_instance num_workers) w = Returns true ∧
  keys (pool (exec (_add_new_instance num_workers) w)) = keys (pool w) ∧
  len (pool (exec (_add_new_instance num_workers) w)) = len (pool w) ∧
  getitem (len (pool w)) (pool (exec (_add_new_instance num_workers) w)) =
    Some (length (heap w)) ∧
  heap (exec (_add_new_instance num_workers) w) =
    heap w ++ [SuccessiveHalving_obj (fresh_racer w)].
Proof.
  intros Hk Hlt. unfold result, exec.
  rewrite _add_new_instance_grow by done. cbn.
  pose proof (setitem_present_keys _ (length (heap w)) _ Hk) as Hkeys.
  split; [done|]. split; [exact Hkeys|]. split; [|split; [|done]].
  - apply (f_equal length) in Hkeys as Hlen. rewrite !keys_length in Hlen.
    unfold pool, len in *. cbn. by f_equal.
  - unfold pool at 2. cbn. apply getitem_setitem.
Qed.

(** *** The pool built from nothing *)

Lemma grown_0 w : pool w = [] → grown 0 w = w.
Proof.
  destruct w as [h []]. unfold pool, grown. cbn. intros ->.
  by rewrite app_nil_r.
Qed.

Lemma pool_grown (n : nat) w :
  pool (grown n w) =
    (λ k : nat, (Z.of_nat k, (length (heap w) + k)%nat)) <$> seq 0 n.
Proof. reflexivity. Qed.

Lemma len_pool_grown (n : nat) w : len (pool (grown n w)) = Z.of_nat n.
Proof. rewrite pool_grown. unfold len. by rewrite length_fmap, length_seq. Qed.

Lemma length_heap_grown (n : nat) w :
  length (heap (grown n w)) = (length (heap w) + n)%nat.
Proof. cbn. by rewrite length_app, length_fmap, length_seq. Qed.

Lemma fresh_key_grown (n : nat) w : Z.of_nat n ∉ keys (pool (grown n w)).
Proof.
  rewrite pool_grown. unfold keys. rewrite <- list_fmap_compose.
  intros (k & Hk & Hin)%list_elem_of_fmap. cbn in Hk.
  apply elem_of_seq in Hin. lia.
Qed.

Lemma grown_step (n : nat) w num_workers :
  exec (_add_new_instance num_workers) (grown n w) =
    if bool_decide (Z.of_nat n < num_workers) then grown (S n) w
    else grown n w.
Proof.
  unfold exec. case_bool_decide as Hn.
  - rewrite _add_new_instance_grow by by rewrite len_pool_grown.
    cbn [snd]. rewrite len_pool_grown, length_heap_grown.
    rewrite (setitem_fresh _ _ _ (fresh_key_grown n w)).
    unfold fresh_racer. rewrite len_pool_grown.
    unfold grown. rewrite seq_S, !fmap_app. cbn. by rewrite app_assoc.
  - rewrite _add_new_instance_full; [done|]. rewrite len_pool_grown. lia.
Qed.

Lemma add_new_instances_grown calls (n : nat) w :
  ∃ m : nat, add_new_instances calls (grown n w) = grown m w.
Proof.
  revert n. induction calls as [|c calls IH]; intros n; cbn.
  - by exists n.
  - rewrite grown_step. case_bool_decide; apply IH.
Qed.

Lemma add_new_instances_from_empty calls w :
  pool w = [] →
  ∃ m : nat, add_new_instances calls w = grown m w.
Proof.
  intros Hp. destruct (add_new_instances_grown calls 0 w) as [m Hm].
  rewrite (grown_0 w Hp) in Hm. by exists m.
Qed.

Lemma pool_item_grown (m : nat) w (k : Z) l :
  (k, l) ∈ pool (grown m w) →
  ∃ j : nat, (j < m)%nat ∧ k = Z.of_nat j ∧ l = (length (heap w) + j)%nat.
Proof.
  rewrite pool_grown. intros (j & Hj & Hin)%list_elem_of_fmap.
  apply elem_of_seq in Hin. injection Hj as -> ->. exists j. lia.
Qed.

(** X8. On a scheduler that started with an empty pool, after any
    sequence of calls of [_add_new_instance]: every item of the pool,
    with key [k], refers to an object that the calls have created, and
    this object is the [SuccessiveHalving] constructed from the
    scheduler's attributes with [identifier] equal to [k]. *)
Theorem pool_items_from_empty w calls (k : Z) l :
  pool w = [] →
  (k, l) ∈ pool (add_new_instances calls w) →
  heap w !! l = None ∧
  heap (add_new_instances calls w) !! l =
    Some (SuccessiveHalving_obj (racer_for (self w) k)).
Proof.
  intros Hp Hin. destruct (add_new_instances_from_empty calls w Hp) as [m Hm].
  rewrite Hm in *. apply pool_item_grown in Hin as (j & Hj & -> & ->).
  split; [apply lookup_ge_None_2; lia|].
  cbn. rewrite lookup_app_r by lia.
  replace (length (heap w) + j - length (heap w))%nat with j by lia.
  rewrite list_lookup_fmap, lookup_seq_lt by done. done.
Qed.

(** X9. On a scheduler that started with an empty pool, after any
    sequence of calls of [_add_new_instance] the pool pairs identifiers
    and objects one to one: no identifier refers to two objects and no
    object is in the pool under two identifiers. *)
Theorem pool_one_to_one w calls (k1 k2 : Z) (l1 l2 : loc) :
  pool w = [] →
  (k1, l1) ∈ pool (add_new_instances calls w) →
  (k2, l2) ∈ pool (add_new_instances calls w) →
  k1 = k2 ↔ l1 = l2.
Proof.
  intros Hp H1 H2. destruct (add_new_instances_from_empty calls w Hp) as [m Hm].
  rewrite Hm in *.
  apply pool_item_grown in H1 as (j1 & _ & -> & ->).
  apply pool_item_grown in H2 as (j2 & _ & -> & ->). lia.
Qed.

End MoreProperties.

Section InitProperties.
Context {PyObject RunKey : Type}.
Variable ParallelScheduler_init :
  ∀ (stats traj_logger rng instances instance_specifics cutoff deterministic
     run_obj_time adaptive_capping_slackfactor min_chall : PyObject),
    @M PyObject RunKey unit.

(** X10. The hyperparameters given to the constructor reach the race
    instances.  Whatever the base initialiser does, once [__init__] has
    returned, an instance that [_add_new_instance] creates is constructed
    with the [n_seeds], [instance_order], [inst_seed_pairs],
    [incumbent_selection], [instances], [instance_specifics],
    [initial_budget], [max_budget], [eta] and [num_initial_challengers]
    that [__init__] was given. *)
Theorem init_hyperparameters_reach_instances
    (stats traj_logger rng instances instance_specifics cutoff
     deterministic initial_budget max_budget eta num_initial_challengers
     run_obj_time n_seeds instance_order adaptive_capping_slackfactor
     inst_seed_pairs min_chall incumbent_selection : PyObject)
    (w w1 : @World PyObject RunKey) (num_workers : Z) :
  __init__ ParallelScheduler_init
    stats traj_logger rng instances instance_specifics cutoff
    deterministic initial_budget max_budget eta num_initial_challengers
    run_obj_time n_seeds instance_order adaptive_capping_slackfactor
    inst_seed_pairs min_chall incumbent_selection w = (Returns tt, w1) →
  result (_add_new_instance num_workers) w1 = Returns true →
  ∃ l sh,
    getitem (len (pool w1)) (pool (exec (_add_new_instance num_workers) w1)) =
      Some l ∧
    heap (exec (_add_new_instance num_workers) w1) !! l =
      Some (SuccessiveHalving_obj sh) ∧
    sh_n_seeds sh = n_seeds ∧
    sh_instance_order sh = instance_order ∧
    sh_inst_seed_pairs sh = inst_seed_pairs ∧
    sh_incumbent_selection sh = incumbent_selection ∧
    sh_instances sh = instances ∧
    sh_instance_specifics sh = instance_specifics ∧
    sh_initial_budget sh = initial_budget ∧
    sh_max_budget sh = max_budget ∧
    sh_eta sh = eta ∧
    sh_num_initial_challengers sh = num_initial_challengers.
Proof.
  intros Hinit Hadd.
  unfold __init__, mbind, M_bind in Hinit.
  destruct (ParallelScheduler_init _ _ _ _ _ _ _ _ _ _ w) as [[[]|e] w0];
    [|done].
  unfold bind_hyperparameters in Hinit. injection Hinit as <-.
  set (w1 := Build_World _ _) in *.
  destruct (Z.le_gt_cases num_workers (len (pool w1))) as [Hle|Hlt].
  { unfold result in Hadd. by rewrite _add_new_instance_full in Hadd. }
  exists (length (heap w1)), (fresh_racer w1). unfold exec.
  rewrite _add_new_instance_grow by done. cbn [snd heap self]. split.
  { unfold pool at 2. cbn. apply getitem_setitem. }
  split; [by rewrite lookup_app_r, Nat.sub_diag|].
  repeat split.
Qed.
End InitProperties.

(** ** The further statements at concrete worlds *)

Import MoreExamples.

Lemma pool_size_after_calls_witness :
  dense world0 ∧
  len (pool (add_new_instances (replicate 4 3) world0)) =
    Z.max (len (pool world0)) (Z.min (len (pool world0) + Z.of_nat 4) 3).
Proof.
  split; [reflexivity | apply (pool_size_after_calls world0 3 4); reflexivity].
Defined.

Lemma full_pool_fixed_point_witness :
  Forall (λ num_workers, num_workers <= len (pool world2)) [2; 1; 0; -3] ∧
  Forall (λ num_workers,
            result (_add_new_instance num_workers) world2 = Returns false)
    [2; 1; 0; -3] ∧
  add_new_instances [2; 1; 0; -3] world2 = world2.
Proof.
  assert (Hc : Forall (λ num_workers, num_workers <= len (pool world2))
                 [2; 1; 0; -3]).
  { repeat (constructor; [vm_compute; discriminate|]). constructor. }
  split; [exact Hc | apply (full_pool_fixed_point world2 [2; 1; 0; -3] Hc)].
Defined.

Lemma no_workers_no_instance_witness :
  Forall (λ num_workers, num_workers <= 0) [0; -1] ∧
  Forall (λ num_workers,
            result (_add_new_instance num_workers) world0 = Returns false)
    [0; -1] ∧
  add_new_instances [0; -1] world0 = world0.
Proof.
  assert (Hc : Forall (λ num_workers, num_workers <= 0) [0; -1]).
  { repeat (constructor; [lia|]). constructor. }
  split; [exact Hc | apply (no_workers_no_instance world0 [0; -1] Hc)].
Defined.

Lemma add_new_instances_frame_witness :
  heap racers !! 4%nat = Some (OtherRacer_obj 7%nat) ∧
  heap (add_new_instances [9; 9] racers) !! 4%nat =
    Some (OtherRacer_obj 7%nat).
Proof.
  split; [reflexivity|].
  apply (proj2 (proj2 (add_new_instances_frame racers [9; 9]))). reflexivity.
Defined.

Lemma ranking_stable_under_add_witness :
  heap racers !! 3%nat = Some (SuccessiveHalving_obj (racer_at 3 2 100)) ∧
  result (_get_intensifier_ranking 3%nat) (add_new_instances [9; 9] racers) =
    result (_get_intensifier_ranking 3%nat) racers.
Proof.
  split; [reflexivity|].
  apply (ranking_stable_under_add racers [9; 9] 3%nat
           (SuccessiveHalving_obj (racer_at 3 2 100))). reflexivity.
Defined.

Lemma new_instance_ranks_lowest_witness :
  result (_add_new_instance 9) racers = Returns true ∧
  ∃ l,
    getitem (len (pool racers)) (pool (exec (_add_new_instance 9) racers)) =
      Some l ∧
    result (_get_intensifier_ranking l) (exec (_add_new_instance 9) racers) =
      Returns (0, 0).
Proof.
  split; [reflexivity | apply (new_instance_ranks_lowest racers 9); reflexivity].
Defined.

Lemma add_new_instance_key_collision_witness :
  len (pool sparse) ∈ keys (pool sparse) ∧
  len (pool sparse) < 2 ∧
  result (_add_new_instance 2) sparse = Returns true ∧
  keys (pool (exec (_add_new_instance 2) sparse)) = keys (pool sparse) ∧
  len (pool (exec (_add_new_instance 2) sparse)) = len (pool sparse) ∧
  getitem (len (pool sparse)) (pool (exec (_add_new_instance 2) sparse)) =
    Some (length (heap sparse)) ∧
  heap (exec (_add_new_instance 2) sparse) =
    heap sparse ++ [SuccessiveHalving_obj (fresh_racer sparse)].
Proof.
  assert (Hk : len (pool sparse) ∈ keys (pool sparse)).
  { change (1 ∈ [1]). constructor. }
  split; [exact Hk|]. split; [reflexivity|].
  apply (add_new_instance_key_collision sparse 2 Hk). reflexivity.
Defined.

Lemma pool_items_from_empty_witness :
  pool world0 = [] ∧
  (1, 1%nat) ∈ pool (add_new_instances [3; 0; 3] world0) ∧
  heap world0 !! 1%nat = None ∧
  heap (add_new_instances [3; 0; 3] world0) !! 1%nat =
    Some (SuccessiveHalving_obj (racer_for (self world0) 1)).
Proof.
  assert (Hin : (1, 1%nat) ∈ pool (add_new_instances [3; 0; 3] world0)).
  { change ((1, 1%nat) ∈ [(0, 0%nat); (1, 1%nat)]). repeat constructor. }
  split; [reflexivity|]. split; [exact Hin|].
  apply (pool_items_from_empty world0 [3; 0; 3] 1 1%nat eq_refl Hin).
Defined.

Lemma pool_one_to_one_witness :
  pool world0 = [] ∧
  (0, 0%nat) ∈ pool (add_new_instances [3; 0; 3] world0) ∧
  (1, 1%nat) ∈ pool (add_new_instances [3; 0; 3] world0) ∧
  (0 = 1 ↔ 0%nat = 1%nat).
Proof.
  assert (H0 : (0, 0%nat) ∈ pool (add_new_instances [3; 0; 3] world0)).
  { change ((0, 0%nat) ∈ [(0, 0%nat); (1, 1%nat)]). repeat constructor. }
  assert (H1 : (1, 1%nat) ∈ pool (add_new_instances [3; 0; 3] world0)).
  { change ((1, 1%nat) ∈ [(0, 0%nat); (1, 1%nat)]). repeat constructor. }
  split; [reflexivity|]. split; [exact H0|]. split; [exact H1|].
  apply (pool_one_to_one world0 [3; 0; 3] 0 1 0%nat 1%nat eq_refl H0 H1).
Defined.

Lemma init_hyperparameters_reach_instances_witness :
  __init__ base_init 21%nat 22%nat 23%nat 24%nat 25%nat 26%nat 27%nat 28%nat
    29%nat 30%nat 31%nat 32%nat 33%nat 34%nat 35%nat 36%nat 37%nat 38%nat
    world0 = (Returns tt, configured) ∧
  result (_add_new_instance 1) configured = Returns true ∧
  ∃ (l : loc) (sh : @SuccessiveHalving nat nat),
    getitem (len (pool configured))
      (pool (exec (_add_new_instance 1) configured)) = Some l ∧
    heap (exec (_add_new_instance 1) configured) !! l =
      Some (SuccessiveHalving_obj sh) ∧
    sh_n_seeds sh = 33%nat ∧
    sh_instance_order sh = 34%nat ∧
    sh_inst_seed_pairs sh = 36%nat ∧
    sh_incumbent_selection sh = 38%nat ∧
    sh_instances sh = 24%nat ∧
    sh_instance_specifics sh = 25%nat ∧
    sh_initial_budget sh = 28%nat ∧
    sh_max_budget sh = 29%nat ∧
    sh_eta sh = 30%nat ∧
    sh_num_initial_challengers sh = 31%nat.
Proof.
  split; [reflexivity|]. split; [reflexivity|].
  apply (init_hyperparameters_reach_instances base_init
           21%nat 22%nat 23%nat 24%nat 25%nat 26%nat 27%nat 28%nat 29%nat
           30%nat 31%nat 32%nat 33%nat 34%nat 35%nat 36%nat 37%nat 38%nat
           world0 configured 1); reflexivity.
Defined.
